(** * A one-dimensional Kalman filter and its simulation driver

    Shallow embedding of [kalman_filter_1d.cpp] (class [kalman_filter_1d])
    and of [draw_gaussian] and the simulation loop of [main] in
    [kalman_filter_1d_demo.cpp].

    The C++ type [double] is an interface, [Double]: the code is written
    once against it.  What the program computes is its reading at [float],
    IEEE 754 binary64 as the kernel computes it, with its rounding, its
    infinities and its NaN.  The theorems below are stated either for every
    arithmetic, or at [float].  The reading at [Q], exact rational
    arithmetic, serves for runs on small numbers; the rationals are also the
    yardstick by which a binary64 result is said to carry no rounding
    error.

    A C++ call either returns or leaves with an exception; [outcome] records
    which.  No statement of the modelled source throws. *)

From Stdlib Require Import ZArith QArith Qabs Qminmax Lqa Lia List Bool.
From Stdlib Require Import Sorted Permutation.
From Stdlib Require Import Uint63 PrimFloat FloatOps SpecFloat FloatAxioms.
Import ListNotations.

(** ** Arithmetic of [double] *)

Declare Scope dbl_scope.
Delimit Scope dbl_scope with dbl.

Class Double (D : Type) : Type := {
  dadd : D -> D -> D;
  dsub : D -> D -> D;
  dmul : D -> D -> D;
  ddiv : D -> D -> D;
  dabs : D -> D;                (* abs(double), the overload of <math.h> *)
  of_int : Z -> D               (* (double)i, and the integral literals *)
}.

Infix "+" := dadd : dbl_scope.
Infix "-" := dsub : dbl_scope.
Infix "*" := dmul : dbl_scope.
Infix "/" := ddiv : dbl_scope.

#[export] Instance Double_Q : Double Q := {
  dadd := Qplus;
  dsub := Qminus;
  dmul := Qmult;
  ddiv := Qdiv;
  dabs := Qabs;
  of_int := inject_Z
}.

(** [(double)i] for a machine integer: the magnitude goes through the
    63-bit primitive integers, which covers every [int] of the program. *)
Definition float_of_Z (i : Z) : float :=
  if (i <? 0)%Z
  then PrimFloat.opp (PrimFloat.of_uint63 (Uint63.of_Z (- i)))
  else PrimFloat.of_uint63 (Uint63.of_Z i).

#[export] Instance Double_float : Double float := {
  dadd := PrimFloat.add;
  dsub := PrimFloat.sub;
  dmul := PrimFloat.mul;
  ddiv := PrimFloat.div;
  dabs := PrimFloat.abs;
  of_int := float_of_Z
}.

(** ** Calls, state and exceptions *)

(** The two conditions the specification names.  The source raises neither:
    it contains no [throw], no [assert] and no error return. *)
Inductive condition : Type :=
| InvalidParameter
| InvalidState.

Inductive outcome (A : Type) : Type :=
| Returned (a : A)
| Raised (c : condition).

Arguments Returned {A} a.
Arguments Raised {A} c.

(** A statement (or a [void] method) running on an object of type [S]. *)
Definition stmt (S A : Type) : Type := S -> outcome (A * S).

Definition ret {S A : Type} (a : A) : stmt S A :=
  fun s => Returned (a, s).

Definition bind {S A B : Type} (m : stmt S A) (k : A -> stmt S B) : stmt S B :=
  fun s =>
    match m s with
    | Returned (a, s') => k a s'
    | Raised c => Raised c
    end.

Definition gets {S A : Type} (f : S -> A) : stmt S A :=
  fun s => Returned (f s, s).

Definition modify {S : Type} (f : S -> S) : stmt S unit :=
  fun s => Returned (tt, f s).

Declare Scope stmt_scope.
Delimit Scope stmt_scope with stmt.

Notation "x <- m ;; k" := (bind m (fun x => k))
  (at level 61, m at next level, right associativity) : stmt_scope.
Notation "m ;; k" := (bind m (fun _ => k))
  (at level 61, right associativity) : stmt_scope.

(** ** The class [kalman_filter_1d] *)

Section Filter.

Context {D : Type} `{Double D}.

Local Open Scope dbl_scope.
Local Open Scope stmt_scope.

(** The four private members. *)
Record kalman_filter_1d : Type := {
  mu : D;
  sigma : D;
  process_noise : D;
  measurement_noise : D
}.

Definition set_mu (v : D) (f : kalman_filter_1d) : kalman_filter_1d :=
  {| mu := v; sigma := sigma f;
     process_noise := process_noise f;
     measurement_noise := measurement_noise f |}.

Definition set_sigma (v : D) (f : kalman_filter_1d) : kalman_filter_1d :=
  {| mu := mu f; sigma := v;
     process_noise := process_noise f;
     measurement_noise := measurement_noise f |}.

(** The constructor stores its four arguments, in this order. *)
Definition kalman_filter_1d_new
    (init_mu init_sigma process_noise' measurement_noise' : D)
  : outcome kalman_filter_1d :=
  Returned {| mu := init_mu; sigma := init_sigma;
              process_noise := process_noise';
              measurement_noise := measurement_noise' |}.

(** [mu = mu + u; sigma = sigma + process_noise;] *)
Definition predict (u : D) : stmt kalman_filter_1d unit :=
  modify (fun f => set_mu (mu f + u) f) ;;
  modify (fun f => set_sigma (sigma f + process_noise f) f).

(** [mu = (measurement_noise * mu + sigma * z) / (measurement_noise + sigma);
     sigma = 1.0 / (1.0/measurement_noise + 1.0/sigma);] *)
Definition correct_by_measurement (z : D) : stmt kalman_filter_1d unit :=
  modify (fun f =>
    set_mu ((measurement_noise f * mu f + sigma f * z)
            / (measurement_noise f + sigma f)) f) ;;
  modify (fun f =>
    set_sigma (of_int 1 / (of_int 1 / measurement_noise f
                           + of_int 1 / sigma f)) f).

Definition get_current_state_estimate : stmt kalman_filter_1d D :=
  gets mu.

Definition get_current_uncertainty : stmt kalman_filter_1d D :=
  gets sigma.

End Filter.

Arguments kalman_filter_1d D : clear implicits.

(** ** The simulation loop of [main] *)

Section Demo.

Context {D : Type} `{Double D}.

Local Open Scope dbl_scope.
Local Open Scope stmt_scope.

(** The variables of [main] that the loop reads or writes.  [main_mu] is the
    ground-truth position (the [mu] of [main]); [z] is declared inside the
    loop and holds the measurement of the current iteration. *)
Record main_vars : Type := {
  main_mu : D;
  mu_naive_est : D;
  myFilter : kalman_filter_1d D;
  simulation_step : Z;
  error_measurement : D;
  error_naive : D;
  error_kf : D;
  z : D
}.

Definition set_main_mu (v : D) (s : main_vars) : main_vars :=
  {| main_mu := v; mu_naive_est := mu_naive_est s; myFilter := myFilter s;
     simulation_step := simulation_step s;
     error_measurement := error_measurement s; error_naive := error_naive s;
     error_kf := error_kf s; z := z s |}.

Definition set_mu_naive_est (v : D) (s : main_vars) : main_vars :=
  {| main_mu := main_mu s; mu_naive_est := v; myFilter := myFilter s;
     simulation_step := simulation_step s;
     error_measurement := error_measurement s; error_naive := error_naive s;
     error_kf := error_kf s; z := z s |}.

Definition set_myFilter (v : kalman_filter_1d D) (s : main_vars) : main_vars :=
  {| main_mu := main_mu s; mu_naive_est := mu_naive_est s; myFilter := v;
     simulation_step := simulation_step s;
     error_measurement := error_measurement s; error_naive := error_naive s;
     error_kf := error_kf s; z := z s |}.

Definition set_simulation_step (v : Z) (s : main_vars) : main_vars :=
  {| main_mu := main_mu s; mu_naive_est := mu_naive_est s;
     myFilter := myFilter s; simulation_step := v;
     error_measurement := error_measurement s; error_naive := error_naive s;
     error_kf := error_kf s; z := z s |}.

Definition set_error_measurement (v : D) (s : main_vars) : main_vars :=
  {| main_mu := main_mu s; mu_naive_est := mu_naive_est s;
     myFilter := myFilter s; simulation_step := simulation_step s;
     error_measurement := v; error_naive := error_naive s;
     error_kf := error_kf s; z := z s |}.

Definition set_error_naive (v : D) (s : main_vars) : main_vars :=
  {| main_mu := main_mu s; mu_naive_est := mu_naive_est s;
     myFilter := myFilter s; simulation_step := simulation_step s;
     error_measurement := error_measurement s; error_naive := v;
     error_kf := error_kf s; z := z s |}.

Definition set_error_kf (v : D) (s : main_vars) : main_vars :=
  {| main_mu := main_mu s; mu_naive_est := mu_naive_est s;
     myFilter := myFilter s; simulation_step := simulation_step s;
     error_measurement := error_measurement s; error_naive := error_naive s;
     error_kf := v; z := z s |}.

Definition set_z (v : D) (s : main_vars) : main_vars :=
  {| main_mu := main_mu s; mu_naive_est := mu_naive_est s;
     myFilter := myFilter s; simulation_step := simulation_step s;
     error_measurement := error_measurement s; error_naive := error_naive s;
     error_kf := error_kf s; z := v |}.

(** A method call on the object [myFilter]. *)
Definition on_myFilter {A : Type} (m : stmt (kalman_filter_1d D) A)
  : stmt main_vars A :=
  fun s =>
    match m (myFilter s) with
    | Returned (a, f') => Returned (a, set_myFilter f' s)
    | Raised c => Raised c
    end.

(** One pass through the body of the [while] loop, steps 1 to 9 of the
    source.  [n_p] and [n_m] are the values drawn in this pass from
    [rnd_distribution_process_noise] and [rnd_distribution_measurement_noise].
    [VISUALIZATION] is [false], so step 8 is no code. *)
Definition loop_body (n_p n_m : D) : stmt main_vars unit :=
  let u := of_int 3 in
  modify (fun s => set_mu_naive_est (mu_naive_est s + u) s) ;;
  modify (fun s => set_main_mu (main_mu s + u + n_p) s) ;;
  modify (fun s => set_z (main_mu s + n_m) s) ;;
  on_myFilter (predict u) ;;
  z' <- gets z ;;
  on_myFilter (correct_by_measurement z') ;;
  N <- gets (fun s => of_int (simulation_step s)) ;;
  modify (fun s =>
    set_error_measurement
      ((error_measurement s * N + dabs (z s - main_mu s))
       / (N + of_int 1)) s) ;;
  modify (fun s =>
    set_error_naive
      ((error_naive s * N + dabs (mu_naive_est s - main_mu s))
       / (N + of_int 1)) s) ;;
  e <- on_myFilter get_current_state_estimate ;;
  modify (fun s =>
    set_error_kf
      ((error_kf s * N + dabs (e - main_mu s)) / (N + of_int 1)) s) ;;
  modify (fun s => set_simulation_step (simulation_step s + 1)%Z s).

(** [while (simulation_step<100000) { ... }], fed with the noise samples
    still to be drawn, one pair per pass; the loop stops when its guard
    fails, or here when the samples run out.  The guard keeps
    [simulation_step + 1] within [int]. *)
Fixpoint while_loop (noise : list (D * D)) : stmt main_vars unit :=
  match noise with
  | [] => ret tt
  | (n_p, n_m) :: noise' =>
      go <- gets (fun s => (simulation_step s <? 100000)%Z) ;;
      if go : bool
      then loop_body n_p n_m ;; while_loop noise'
      else ret tt
  end.

(** The states at the end of each pass, in order. *)
Fixpoint trace (noise : list (D * D)) (s : main_vars) : list main_vars :=
  match noise with
  | [] => []
  | (n_p, n_m) :: noise' =>
      if (simulation_step s <? 100000)%Z
      then match loop_body n_p n_m s with
           | Returned (_, s') => s' :: trace noise' s'
           | Raised _ => []
           end
      else []
  end.




(** The variables as [main] declares them before the loop: both position
    estimates start at [mu0], the step count and the three averages at
    zero. *)
Definition initial_vars (mu0 : D) (f : kalman_filter_1d D) : main_vars :=
  {| main_mu := mu0; mu_naive_est := mu0; myFilter := f;
     simulation_step := 0;
     error_measurement := of_int 0; error_naive := of_int 0;
     error_kf := of_int 0; z := of_int 0 |}.

(** The declarations of [main] before the loop, then the loop.  The literal
    [0.75] is [3/4]; the filter is built with [1.0*measurement_noise]. *)
Definition main (noise : list (D * D)) : outcome main_vars :=
  let mu0 := of_int 5 in
  let sigma0 := of_int 3 / of_int 4 in
  let process_noise0 := of_int 10 in
  let measurement_noise0 := of_int 10 in
  match kalman_filter_1d_new mu0 sigma0 process_noise0
          (of_int 1 * measurement_noise0) with
  | Returned f =>
      match while_loop noise (initial_vars mu0 f) with
      | Returned (_, s) => Returned s
      | Raised c => Raised c
      end
  | Raised c => Raised c
  end.

End Demo.

Arguments main_vars D : clear implicits.

(** ** Sequences of calls on a filter *)

Inductive call (D : Type) : Type :=
| Predict (u : D)
| Correct (z : D).

Arguments Predict {D} u.
Arguments Correct {D} z.

Definition do_call {D : Type} `{Double D} (c : call D)
  : stmt (kalman_filter_1d D) unit :=
  match c with
  | Predict u => predict u
  | Correct z => correct_by_measurement z
  end.

Fixpoint do_calls {D : Type} `{Double D} (cs : list (call D))
  : stmt (kalman_filter_1d D) unit :=
  match cs with
  | [] => ret tt
  | c :: cs' => bind (do_call c) (fun _ => do_calls cs')
  end.

(** ** [draw_gaussian] *)

Definition IMG_WIDTH : Z := 800.
Definition IMG_HEIGHT : Z := 800.

(** A pixel, and a call [line(image, Point(..), Point(..), col, 1, LINE_AA)]
    by its two end points. *)
Definition pixel : Type := (Z * Z)%type.
Definition segment : Type := (pixel * pixel)%type.

(** The locals the loop carries, and the calls of [line] made so far, in
    order. *)
Record pen : Type := {
  prev_draw_x : Z;
  prev_draw_y : Z;
  drawn : list segment
}.

(** [valid coords?], as the source negates it. *)
Definition off_image (draw_x draw_y : Z) : bool :=
  (draw_x <? 0)%Z || (draw_x >=? IMG_WIDTH)%Z
  || (draw_y <? 0)%Z || (draw_y >=? IMG_HEIGHT)%Z.

Section Draw.

(** [(int)y] for the abscissa [x]: the density of the Gaussian at [x],
    scaled by 5000 and cut to an [int].  It is computed with [sqrt], [exp]
    and [pow] of the C library and is an input here. *)
Variable height : Z -> Z.

(** The pixel the loop computes for [x].  The two [int] sums are taken in
    [Z]: they do not wrap for anchors and means anywhere near the image. *)
Definition draw_pixel (anchor_x anchor_y x : Z) : pixel :=
  ((anchor_x + x)%Z, (anchor_y - height x)%Z).

(** The body of the [for] loop for one [x]: skip a pixel off the image;
    remember the first pixel; from then on draw a line from the previous
    pixel and remember the new one. *)
Definition draw_step (anchor_x anchor_y : Z) (p : pen) (x : Z) : pen :=
  let draw_x := fst (draw_pixel anchor_x anchor_y x) in
  let draw_y := snd (draw_pixel anchor_x anchor_y x) in
  if off_image draw_x draw_y then p
  else if (prev_draw_x p =? -1)%Z && (prev_draw_y p =? -1)%Z then
    {| prev_draw_x := draw_x; prev_draw_y := draw_y; drawn := drawn p |}
  else
    {| prev_draw_x := draw_x; prev_draw_y := draw_y;
       drawn := drawn p
                ++ [((prev_draw_x p, prev_draw_y p), (draw_x, draw_y))] |}.

(** The values [x] takes: from [(int)mu - IMG_WIDTH] to
    [(int)mu + IMG_WIDTH], both included, in steps of one. *)
Definition abscissas (int_mu : Z) : list Z :=
  map (fun k => (int_mu - IMG_WIDTH + Z.of_nat k)%Z)
      (seq 0 (Z.to_nat (2 * IMG_WIDTH + 1))).

(** [draw_gaussian(anchor_x, anchor_y, mu, sigma, col)], with [int_mu] for
    [(int)mu]: the calls of [line] it makes. *)
Definition draw_gaussian (anchor_x anchor_y int_mu : Z) : list segment :=
  drawn (fold_left (draw_step anchor_x anchor_y) (abscissas int_mu)
           {| prev_draw_x := -1; prev_draw_y := -1; drawn := [] |}).

(** The pixels of the curve that fall on the image, in the order of [x]. *)
Definition on_image_pixels (anchor_x anchor_y : Z) (xs : list Z)
  : list pixel :=
  filter (fun q => negb (off_image (fst q) (snd q)))
         (map (draw_pixel anchor_x anchor_y) xs).

(** The range of [int]. *)
Definition in_int (n : Z) : bool :=
  (-2147483648 <=? n)%Z && (n <=? 2147483647)%Z.

(** The arguments and every [int] the loop computes lie in the range of
    [int]: the casts [(int)mu] and [(int)y], the two bounds of the loop and
    the two sums of each pass.  Outside it the source has no defined
    behaviour, and the sums below, taken in [Z], say nothing about it. *)
Definition int_sums_in_range (anchor_x anchor_y int_mu : Z) : bool :=
  in_int anchor_x && in_int anchor_y && in_int int_mu
  && in_int (int_mu - IMG_WIDTH) && in_int (int_mu + IMG_WIDTH)
  && forallb (fun x => in_int (height x)
                       && in_int (anchor_x + x)
                       && in_int (anchor_y - height x))
             (abscissas int_mu).

End Draw.

(** Each element of a list paired with the next one. *)
Fixpoint consecutive {A : Type} (l : list A) : list (A * A) :=
  match l with
  | a :: (b :: _) as l' => (a, b) :: consecutive l'
  | _ => []
  end.

Definition on_image (q : pixel) : Prop :=
  (0 <= fst q < IMG_WIDTH)%Z /\ (0 <= snd q < IMG_HEIGHT)%Z.

(** A pen that has seen a pixel holds a pixel of the image. *)
Definition pen_down (p : pen) : Prop :=
  on_image (prev_draw_x p, prev_draw_y p).

(** ** Vocabulary of the further properties *)

Definition is_predict {D : Type} (c : call D) : bool :=
  match c with
  | Predict _ => true
  | Correct _ => false
  end.

(** The calls one pass of the loop makes on [myFilter], read from the state
    [s1] at the end of the pass. *)
Definition pass_calls {D : Type} `{Double D} (s1 : main_vars D)
  : list (call D) :=
  [Predict (of_int 3); Correct (z s1)].

(** The calls the whole loop makes on [myFilter]. *)
Definition loop_calls {D : Type} `{Double D} (noise : list (D * D))
    (s : main_vars D) : list (call D) :=
  flat_map pass_calls (trace noise s).

(** ** Binary64 numbers as rationals *)

(** The rational a binary64 number stands for; the infinities and NaN stand
    for none. *)
Definition SF2Q (x : spec_float) : option Q :=
  match x with
  | S754_zero _ => Some 0%Q
  | S754_finite s m e => Some (inject_Z (cond_Zopp s (Zpos m)) * 2 ^ e)%Q
  | S754_infinity _ | S754_nan => None
  end.

Definition float_value (x : float) : option Q := SF2Q (Prim2SF x).

Definition is_finite (x : float) : bool :=
  match float_value x with
  | Some _ => true
  | None => false
  end.

(** The value of a finite number, and [0] for the others: [0 < to_Q x] says
    that [x] is finite and positive. *)
Definition to_Q (x : float) : Q :=
  match float_value x with
  | Some v => v
  | None => 0%Q
  end.

(** The sign and kind of a binary64 number: [+0], positive or [+infinity];
    positive or [+infinity]; a zero of either sign, positive or
    [+infinity]. *)
Definition plus_signed (x : spec_float) : Prop :=
  match x with
  | S754_zero false | S754_infinity false | S754_finite false _ _ => True
  | _ => False
  end.

Definition positive_sf (x : spec_float) : Prop :=
  match x with
  | S754_infinity false | S754_finite false _ _ => True
  | _ => False
  end.

Definition nonnegative_sf (x : spec_float) : Prop :=
  match x with
  | S754_zero _ | S754_infinity false | S754_finite false _ _ => True
  | _ => False
  end.

(** A filter in binary64 whose uncertainty is [+0], positive or
    [+infinity], whose process noise is not negative and whose measurement
    noise is positive. *)
Definition filter_sound (f : kalman_filter_1d float) : Prop :=
  plus_signed (Prim2SF (sigma f)) /\
  nonnegative_sf (Prim2SF (process_noise f)) /\
  positive_sf (Prim2SF (measurement_noise f)).

(** ** Binary64 results without rounding error *)




(** The correction computes its new estimate without rounding error: the
    binary64 result is the rational value of the formula at the values of
    the members and of [z]. *)



(** ** Means *)



(** ** The uncertainty and the naive estimate, pass by pass *)

Section PassByPass.

Context {D : Type} `{Double D}.

(** What a pass does to the uncertainty of a filter with the noise members
    [p] and [m]: [predict], then [correct_by_measurement]. *)
Definition pass_sigma (p m s : D) : D :=
  ddiv (of_int 1)
       (dadd (ddiv (of_int 1) m) (ddiv (of_int 1) (dadd s p))).

(** What a pass does to the naive estimate. *)
Definition pass_naive (x : D) : D := dadd x (of_int 3).

End PassByPass.

(** ** Inputs of the concrete runs *)

(** The filter of [main]: estimate 5, uncertainty 0.75, both noises 10. *)
Definition demo_filter : kalman_filter_1d Q :=
  {| mu := 5; sigma := 3 # 4; process_noise := 10; measurement_noise := 10 |}.

(** A filter that is certain of its estimate, in binary64. *)
Definition certain_filter : kalman_filter_1d float :=
  {| mu := 5; sigma := 0;
     process_noise := 10; measurement_noise := 10 |}%float.

Definition demo_vars : main_vars Q := initial_vars 5%Q demo_filter.

Definition demo_noise : list (Q * Q) := [(1, -2); (-4, 1 # 2)]%Q.

(** Binary64 inputs.  [tenth] is the binary64 number next to 0.1. *)
Definition tenth : float := 0x1.999999999999ap-4%float.



(** A filter with a subnormal measurement noise. *)
Definition subnormal_filter : kalman_filter_1d float :=
  {| mu := 5; sigma := 1;
     process_noise := 10; measurement_noise := 0x1p-1040 |}%float.





(** The variables of [main] as the loop finds them, in binary64. *)
Definition main_start : main_vars float :=
  initial_vars 5%float
    {| mu := 5; sigma := 3 / 4;
       process_noise := 10; measurement_noise := 1 * 10 |}%float.

(** Samples that hold the ground truth at 0 and put each measurement a
    tenth above it. *)
Definition tenth_noise : list (float * float) :=
  [(-8, tenth); (-3, tenth); (-3, tenth)]%float.




(** A curve of height 300 at the mean that falls by one per pixel. *)
Definition tent (x : Z) : Z := Z.max 0 (300 - Z.abs x).

(** * Properties *)

(** ** The two steps, in any arithmetic *)

Section Steps.

Context {D : Type} `{Double D}.

Local Open Scope dbl_scope.

(** C2. [predict u] always returns; it leaves the filter with the estimate
    [mu + u] and the uncertainty [sigma + process_noise], and the two noise
    members as they were. *)
Theorem predict_spec (f : kalman_filter_1d D) (u : D) :
  predict u f =
  Returned (tt, {| mu := mu f + u;
                   sigma := sigma f + process_noise f;
                   process_noise := process_noise f;
                   measurement_noise := measurement_noise f |}).
Proof. reflexivity. Qed.

(** C1. [correct_by_measurement z] leaves the filter with the estimate
    [(measurement_noise * mu + sigma * z) / (measurement_noise + sigma)] and
    the uncertainty [1 / (1/measurement_noise + 1/sigma)], both read from
    the members as they were before the call.  The equations are those of
    the source, so they hold in every arithmetic, for every state. *)
Theorem correct_by_measurement_spec (f : kalman_filter_1d D) (z : D) :
  exists f',
    correct_by_measurement z f = Returned (tt, f') /\
    mu f' = (measurement_noise f * mu f + sigma f * z)
            / (measurement_noise f + sigma f) /\
    sigma f' = of_int 1 / (of_int 1 / measurement_noise f
                           + of_int 1 / sigma f) /\
    process_noise f' = process_noise f /\
    measurement_noise f' = measurement_noise f.
Proof. eexists; split; [reflexivity | repeat split]. Qed.

(** C3 (as the code has it). The constructor never fails: whatever the four
    arguments are, the measurement noise included, it returns the filter
    that holds them. *)
Theorem kalman_filter_1d_new_returns (init_mu init_sigma pn mn : D) :
  kalman_filter_1d_new init_mu init_sigma pn mn =
  Returned {| mu := init_mu; sigma := init_sigma;
              process_noise := pn; measurement_noise := mn |}.
Proof. reflexivity. Qed.

(** C4 (as the code has it). [correct_by_measurement] has no guard: on a
    filter whose uncertainty is zero it returns as on any other, with the
    two formulas evaluated at that zero. *)
Theorem correct_by_measurement_unguarded (f : kalman_filter_1d D) (z : D) :
  sigma f = of_int 0 ->
  exists f',
    correct_by_measurement z f = Returned (tt, f') /\
    mu f' = (measurement_noise f * mu f + of_int 0 * z)
            / (measurement_noise f + of_int 0) /\
    sigma f' = of_int 1 / (of_int 1 / measurement_noise f
                           + of_int 1 / of_int 0).
Proof.
  intros E. eexists. split; [reflexivity |]. cbn. now rewrite E.
Qed.

(** What one pass of the loop leaves behind. *)
Lemma loop_body_returns (n_p n_m : D) (s : main_vars D) :
  let u := of_int 3 in
  let N := of_int (simulation_step s) in
  exists f1 f2 s1,
    predict u (myFilter s) = Returned (tt, f1) /\
    correct_by_measurement (main_mu s + u + n_p + n_m) f1
      = Returned (tt, f2) /\
    loop_body n_p n_m s = Returned (tt, s1) /\
    s1 = {| main_mu := main_mu s + u + n_p;
            mu_naive_est := mu_naive_est s + u;
            myFilter := f2;
            simulation_step := simulation_step s + 1;
            error_measurement :=
              (error_measurement s * N
               + dabs (main_mu s + u + n_p + n_m - (main_mu s + u + n_p)))
              / (N + of_int 1);
            error_naive :=
              (error_naive s * N
               + dabs (mu_naive_est s + u - (main_mu s + u + n_p)))
              / (N + of_int 1);
            error_kf :=
              (error_kf s * N + dabs (mu f2 - (main_mu s + u + n_p)))
              / (N + of_int 1);
            z := main_mu s + u + n_p + n_m |}.
Proof.
  intros u N. do 3 eexists. repeat split.
Qed.

(** C9. A pass of the loop, taken while the guard holds, with [n_p] and
    [n_m] the samples drawn in it.  [loop_body] returns the state in which
    the naive estimate has advanced by the control [u = 3]; the ground
    truth has advanced by [u + n_p]; the measurement is the new ground truth
    plus [n_m]; the filter has done [predict u] and then
    [correct_by_measurement] on that measurement; each of the three averages
    has taken in its absolute error with [N] the step count before the
    pass; and the step count has gone up by one.  The loop makes this pass:
    with no sample left it returns that state, and with samples left it
    goes on from that state. *)
Theorem while_loop_pass (n_p n_m : D) (noise : list (D * D))
    (s : main_vars D) :
  (simulation_step s < 100000)%Z ->
  let u := of_int 3 in
  let naive' := mu_naive_est s + u in
  let truth' := main_mu s + u + n_p in
  let z' := truth' + n_m in
  let N := of_int (simulation_step s) in
  exists f1 f2,
    predict u (myFilter s) = Returned (tt, f1) /\
    correct_by_measurement z' f1 = Returned (tt, f2) /\
    let s1 :=
      {| main_mu := truth';
         mu_naive_est := naive';
         myFilter := f2;
         simulation_step := simulation_step s + 1;
         error_measurement :=
           (error_measurement s * N + dabs (z' - truth')) / (N + of_int 1);
         error_naive :=
           (error_naive s * N + dabs (naive' - truth')) / (N + of_int 1);
         error_kf :=
           (error_kf s * N + dabs (mu f2 - truth')) / (N + of_int 1);
         z := z' |} in
    loop_body n_p n_m s = Returned (tt, s1) /\
    while_loop [(n_p, n_m)] s = Returned (tt, s1) /\
    while_loop ((n_p, n_m) :: noise) s = while_loop noise s1.
Proof.
  intros Hgo u naive' truth' z' N.
  destruct (loop_body_returns n_p n_m s) as (f1 & f2 & s1 & E1 & E2 & E & ->).
  exists f1, f2. split; [exact E1 |]. split; [exact E2 |].
  apply Z.ltb_lt in Hgo. cbv zeta. split; [exact E |].
  split; cbn [while_loop]; unfold bind at 1, gets; rewrite Hgo;
    unfold bind at 1; now rewrite E.
Qed.

(** The loop ends, with the step count at its bound, as soon as the samples
    suffice. *)
Lemma while_loop_terminates (noise : list (D * D)) : forall s : main_vars D,
  (0 <= simulation_step s <= 100000)%Z ->
  (100000 - simulation_step s <= Z.of_nat (length noise))%Z ->
  exists s', while_loop noise s = Returned (tt, s') /\
             simulation_step s' = 100000%Z.
Proof.
  induction noise as [| [n_p n_m] noise IH]; intros s Hr Hl.
  - exists s. split; [reflexivity |]. cbn [length Z.of_nat] in Hl. lia.
  - cbn [while_loop]. unfold bind at 1, gets.
    destruct (simulation_step s <? 100000)%Z eqn:G.
    + apply Z.ltb_lt in G.
      destruct (loop_body_returns n_p n_m s)
        as (f1 & f2 & s1 & _ & _ & E & Es1).
      unfold bind at 1. rewrite E.
      apply IH; rewrite Es1; cbn [simulation_step]; [lia |].
      cbn [length] in Hl. lia.
    + apply Z.ltb_ge in G. exists s. split; [reflexivity | lia].
Qed.

Lemma last_after_head {A : Type} (l : list A) : forall x d : A,
  last (x :: l) d = last l x.
Proof.
  induction l as [| y l IH]; intros x d; [reflexivity |].
  change (last (x :: y :: l) d) with (last (y :: l) d).
  now rewrite !IH.
Qed.

(** [trace] lists the states the loop goes through: the loop returns, and
    ends in the last of them. *)
Lemma while_loop_trace (noise : list (D * D)) : forall s : main_vars D,
  while_loop noise s = Returned (tt, last (trace noise s) s).
Proof.
  induction noise as [| [n_p n_m] noise IH]; intros s; [reflexivity |].
  cbn [while_loop trace]. unfold bind at 1, gets.
  destruct (simulation_step s <? 100000)%Z; [| reflexivity].
  destruct (loop_body_returns n_p n_m s) as (f1 & f2 & s1 & _ & _ & E & _).
  unfold bind at 1. rewrite E, IH. now rewrite last_after_head.
Qed.

End Steps.

(** ** Sequences of calls, in any arithmetic *)

Section CallsAnyArithmetic.

Context {D : Type} `{Double D}.

Lemma do_calls_cons (c : call D) (cs : list (call D))
    (f f1 : kalman_filter_1d D) :
  do_call c f = Returned (tt, f1) ->
  do_calls (c :: cs) f = do_calls cs f1.
Proof.
  intros E. cbn [do_calls]. unfold bind. now rewrite E.
Qed.

(** A call returns; it keeps the two noise members, and its new uncertainty
    is read from the old uncertainty, the noise members and the kind of the
    call alone. *)
Lemma do_call_uncertainty (c : call D) (f : kalman_filter_1d D) :
  exists f',
    do_call c f = Returned (tt, f') /\
    process_noise f' = process_noise f /\
    measurement_noise f' = measurement_noise f /\
    sigma f' = if is_predict c
               then dadd (sigma f) (process_noise f)
               else ddiv (of_int 1)
                      (dadd (ddiv (of_int 1) (measurement_noise f))
                            (ddiv (of_int 1) (sigma f))).
Proof.
  destruct c; eexists; (split; [reflexivity | repeat split]).
Qed.

(** X4. No sequence of [predict] and [correct_by_measurement] calls ever
    changes [process_noise] or [measurement_noise]: they are as the
    constructor stored them. *)
Theorem noise_members_never_change (cs : list (call D)) :
  forall f : kalman_filter_1d D,
  exists f',
    do_calls cs f = Returned (tt, f') /\
    process_noise f' = process_noise f /\
    measurement_noise f' = measurement_noise f.
Proof.
  induction cs as [| c cs IH]; intros f.
  - exists f. now repeat split.
  - destruct (do_call_uncertainty c f) as (f1 & E1 & Hp & Hm & _).
    destruct (IH f1) as (f' & E & Hp' & Hm').
    exists f'. rewrite (do_calls_cons c cs f f1 E1).
    repeat split; congruence.
Qed.

(** X5. The uncertainty does not depend on the data.  Two sequences of
    calls of the same kinds, call by call, run on two filters with the same
    uncertainty and noise members, end with the same uncertainty, whatever
    the estimates, the controls and the measurements are. *)
Theorem uncertainty_ignores_data (cs1 cs2 : list (call D)) :
  forall f1 f2 : kalman_filter_1d D,
  map is_predict cs1 = map is_predict cs2 ->
  sigma f1 = sigma f2 ->
  process_noise f1 = process_noise f2 ->
  measurement_noise f1 = measurement_noise f2 ->
  exists f1' f2',
    do_calls cs1 f1 = Returned (tt, f1') /\
    do_calls cs2 f2 = Returned (tt, f2') /\
    sigma f1' = sigma f2'.
Proof.
  revert cs2. induction cs1 as [| c1 cs1 IH]; intros [| c2 cs2] f1 f2 Hk Hs Hp Hm;
    try discriminate.
  - exists f1, f2. now repeat split.
  - cbn [map] in Hk. injection Hk as Hk1 Hk.
    destruct (do_call_uncertainty c1 f1) as (g1 & E1 & Hp1 & Hm1 & Hs1).
    destruct (do_call_uncertainty c2 f2) as (g2 & E2 & Hp2 & Hm2 & Hs2).
    assert (Hs' : sigma g1 = sigma g2)
      by (rewrite Hs1, Hs2, Hk1, Hs, Hp, Hm; reflexivity).
    assert (Hp' : process_noise g1 = process_noise g2) by congruence.
    assert (Hm' : measurement_noise g1 = measurement_noise g2) by congruence.
    destruct (IH cs2 g1 g2 Hk Hs' Hp' Hm') as (f1' & f2' & R1 & R2 & Heq).
    exists f1', f2'.
    rewrite (do_calls_cons c1 cs1 f1 g1 E1), (do_calls_cons c2 cs2 f2 g2 E2).
    now repeat split.
Qed.

End CallsAnyArithmetic.

(** ** The loop, in any arithmetic *)

Section LoopAnyArithmetic.

Context {D : Type} `{Double D}.

(** While the guard holds, the loop makes a pass and goes on. *)
Lemma while_loop_go (n_p n_m : D) (noise : list (D * D)) (s : main_vars D) :
  (simulation_step s < 100000)%Z ->
  exists s1,
    loop_body n_p n_m s = Returned (tt, s1) /\
    while_loop ((n_p, n_m) :: noise) s = while_loop noise s1 /\
    trace ((n_p, n_m) :: noise) s = s1 :: trace noise s1.
Proof.
  intros Hgo. apply Z.ltb_lt in Hgo.
  destruct (loop_body_returns n_p n_m s) as (f1 & f2 & s1 & _ & _ & E & _).
  exists s1. split; [exact E |].
  cbn [while_loop trace]. unfold bind at 1, gets. rewrite Hgo.
  unfold bind at 1. now rewrite E.
Qed.

(** Once the guard fails, the loop does nothing. *)
Lemma while_loop_stop (noise : list (D * D)) (s : main_vars D) :
  (100000 <= simulation_step s)%Z ->
  while_loop noise s = Returned (tt, s) /\ trace noise s = [].
Proof.
  intros Hstop. apply Z.ltb_ge in Hstop.
  destruct noise as [| [n_p n_m] noise]; [now split |].
  cbn [while_loop trace]. unfold bind, gets. now rewrite Hstop.
Qed.

(** Samples beyond the bound of the loop are never drawn. *)
Lemma while_loop_surplus (noise more : list (D * D)) : forall s : main_vars D,
  (simulation_step s + Z.of_nat (length noise) = 100000)%Z ->
  while_loop (noise ++ more) s = while_loop noise s.
Proof.
  induction noise as [| [n_p n_m] noise IH]; intros s Hb.
  - cbn [length Z.of_nat] in Hb. cbn [app].
    destruct (while_loop_stop more s) as [-> _]; [lia | reflexivity].
  - cbn [length] in Hb. rewrite Nat2Z.inj_succ in Hb. cbn [app].
    destruct (while_loop_go n_p n_m (noise ++ more) s) as (s1 & E & -> & _);
      [lia |].
    destruct (while_loop_go n_p n_m noise s) as (s2 & E' & -> & _); [lia |].
    rewrite E in E'. injection E' as <-.
    apply IH.
    destruct (loop_body_returns n_p n_m s) as (f1 & f2 & s3 & _ & _ & E3 & ->).
    rewrite E in E3. injection E3 as ->. cbn [simulation_step]. lia.
Qed.

(** X12. The loop drives the filter with [predict(3)] and then
    [correct_by_measurement] on the measurement of the pass, pass after
    pass, and with nothing else: the filter at the end of the loop is the
    filter at its start after exactly these calls. *)
Theorem loop_drives_filter (noise : list (D * D)) : forall s : main_vars D,
  exists s',
    while_loop noise s = Returned (tt, s') /\
    do_calls (loop_calls noise s) (myFilter s) = Returned (tt, myFilter s').
Proof.
  induction noise as [| [n_p n_m] noise IH]; intros s.
  - exists s. now split.
  - destruct (Z.lt_ge_cases (simulation_step s) 100000) as [Hgo | Hstop].
    + destruct (while_loop_go n_p n_m noise s Hgo) as (s1 & E & -> & Ht).
      destruct (loop_body_returns n_p n_m s)
        as (f1 & f2 & s2 & E1 & E2 & E' & Es2).
      rewrite E in E'. injection E' as <-.
      destruct (IH s1) as (s' & Hrun & Hcalls).
      exists s'. split; [exact Hrun |].
      unfold loop_calls. rewrite Ht. cbn [flat_map pass_calls app].
      fold (loop_calls noise s1).
      assert (Hf : myFilter s1 = f2) by now rewrite Es2.
      assert (Hz : z s1 = dadd (dadd (dadd (main_mu s) (of_int 3)) n_p) n_m)
        by now rewrite Es2.
      rewrite (do_calls_cons (Predict (of_int 3)) _ (myFilter s) f1 E1).
      rewrite (do_calls_cons (Correct (z s1)) _ f1 f2).
      * now rewrite <- Hf.
      * rewrite Hz. exact E2.
    + destruct (while_loop_stop ((n_p, n_m) :: noise) s Hstop) as [-> Ht].
      exists s. split; [reflexivity |]. unfold loop_calls. now rewrite Ht.
Qed.

(** X13. The loop makes as many passes as it has samples, but never takes
    the step count beyond 100000: from a step count within the bound it
    ends at the smaller of the two, each pass having counted once. *)
Theorem while_loop_pass_count (noise : list (D * D)) : forall s : main_vars D,
  (simulation_step s <= 100000)%Z ->
  exists s',
    while_loop noise s = Returned (tt, s') /\
    simulation_step s'
    = Z.min (simulation_step s + Z.of_nat (length noise)) 100000 /\
    Z.of_nat (length (trace noise s))
    = (simulation_step s' - simulation_step s)%Z.
Proof.
  induction noise as [| [n_p n_m] noise IH]; intros s Hb.
  - exists s. cbn [length trace Z.of_nat]. repeat split; lia.
  - destruct (Z.lt_ge_cases (simulation_step s) 100000) as [Hgo | Hstop].
    + destruct (while_loop_go n_p n_m noise s Hgo) as (s1 & E & -> & ->).
      destruct (loop_body_returns n_p n_m s)
        as (f1 & f2 & s2 & _ & _ & E' & Es2).
      rewrite E in E'. injection E' as <-.
      assert (Hs1 : simulation_step s1 = (simulation_step s + 1)%Z)
        by now rewrite Es2.
      destruct (IH s1) as (s' & Hrun & Hstep & Hlen); [lia |].
      exists s'. split; [exact Hrun |].
      cbn [length]. rewrite !Nat2Z.inj_succ. lia.
    + destruct (while_loop_stop ((n_p, n_m) :: noise) s Hstop) as [-> ->].
      exists s. cbn [length Z.of_nat]. repeat split; lia.
Qed.

End LoopAnyArithmetic.

(** With the hundred thousand samples the program draws, [main] returns
    after exactly that many passes. *)
Lemma main_terminates {D : Type} `{Double D} (noise : list (D * D)) :
  (100000 <= Z.of_nat (length noise))%Z ->
  exists s, main noise = Returned s /\ simulation_step s = 100000%Z.
Proof.
  intros Hl. unfold main. cbn [kalman_filter_1d_new].
  match goal with
  | |- context [while_loop noise ?s0] =>
      destruct (while_loop_terminates noise s0) as (s' & E & Es);
      [cbn; lia | cbn; lia | rewrite E; now exists s']
  end.
Qed.

(** ** [draw_gaussian] *)

Section DrawProperties.

Variable height : Z -> Z.
Variables anchor_x anchor_y : Z.

Local Abbreviation step := (draw_step height anchor_x anchor_y).
Local Abbreviation visible := (on_image_pixels height anchor_x anchor_y).

Lemma off_image_false (q : pixel) :
  off_image (fst q) (snd q) = false <-> on_image q.
Proof.
  unfold off_image, on_image, IMG_WIDTH, IMG_HEIGHT.
  rewrite !orb_false_iff, !Z.ltb_ge, !Z.geb_leb, !Z.leb_gt. lia.
Qed.

Lemma pen_down_not_first (p : pen) :
  pen_down p -> ((prev_draw_x p =? -1)%Z && (prev_draw_y p =? -1)%Z) = false.
Proof.
  intros [[Hx _] _]. cbn in Hx.
  apply andb_false_intro1. apply Z.eqb_neq. lia.
Qed.

(** With the pen down, the loop links the previous pixel and the visible
    ones, each to the next. *)
Lemma fold_pen_down (xs : list Z) : forall p,
  pen_down p ->
  drawn (fold_left step xs p)
  = drawn p ++ consecutive ((prev_draw_x p, prev_draw_y p) :: visible xs).
Proof.
  induction xs as [| x xs IH]; intros p Hp.
  - cbn. now rewrite app_nil_r.
  - cbn [fold_left]. unfold on_image_pixels in *.
    cbn [map filter]. unfold draw_step at 2.
    destruct (off_image _ _) eqn:Hoff; cbn [negb].
    + now apply IH.
    + rewrite (pen_down_not_first p Hp).
      rewrite IH by (now apply off_image_false).
      cbn [drawn prev_draw_x prev_draw_y]. rewrite <- app_assoc.
      cbn [consecutive app]. now destruct (draw_pixel height anchor_x anchor_y x).
Qed.

(** From the start, the loop links the visible pixels, each to the next. *)
Lemma fold_pen_up (xs : list Z) :
  drawn (fold_left step xs
           {| prev_draw_x := -1; prev_draw_y := -1; drawn := [] |})
  = consecutive (visible xs).
Proof.
  induction xs as [| x xs IH]; [reflexivity |].
  cbn [fold_left]. unfold on_image_pixels in *.
  cbn [map filter]. unfold draw_step at 2.
  destruct (off_image _ _) eqn:Hoff; cbn [negb].
  - exact IH.
  - cbn [prev_draw_x prev_draw_y Z.eqb andb].
    rewrite fold_pen_down by (now apply off_image_false).
    cbn [drawn app prev_draw_x prev_draw_y].
    now destruct (draw_pixel height anchor_x anchor_y x).
Qed.

Lemma consecutive_members {A : Type} (l : list A) (a b : A) :
  In (a, b) (consecutive l) -> In a l /\ In b l.
Proof.
  induction l as [| x [| y l] IH]; cbn [consecutive]; try easy.
  intros [E | Hin].
  - injection E as <- <-. split; [now left | right; now left].
  - destruct (IH Hin) as [Ha Hb]. split; now right.
Qed.

Lemma consecutive_sorted {A : Type} (R : A -> A -> Prop) (l : list A) :
  StronglySorted R l -> Forall (fun ab => R (fst ab) (snd ab)) (consecutive l).
Proof.
  induction 1 as [| x l Hs IH Hx]; [constructor |].
  destruct l as [| y l]; [constructor |].
  cbn [consecutive]. constructor; [| exact IH].
  now inversion Hx.
Qed.

Lemma filter_sorted {A : Type} (R : A -> A -> Prop) (keep : A -> bool)
    (l : list A) :
  StronglySorted R l -> StronglySorted R (filter keep l).
Proof.
  induction 1 as [| x l Hs IH Hx]; cbn [filter]; [constructor |].
  destruct (keep x); [| exact IH].
  constructor; [exact IH |].
  apply Forall_forall. intros y Hy. apply filter_In in Hy as [Hy _].
  revert y Hy. now apply Forall_forall.
Qed.

(** The abscissas grow, so the pixels go from left to right. *)
Lemma pixels_sorted (int_mu : Z) :
  StronglySorted (fun q1 q2 : pixel => (fst q1 < fst q2)%Z)
    (map (draw_pixel height anchor_x anchor_y) (abscissas int_mu)).
Proof.
  unfold abscissas. generalize (Z.to_nat (2 * IMG_WIDTH + 1)) as n.
  generalize 0%nat as k. intros k n. revert k.
  induction n as [| n IH]; intros k; cbn [seq map]; constructor.
  - apply IH.
  - apply Forall_forall. intros q Hq.
    apply in_map_iff in Hq as (x & <- & Hx).
    apply in_map_iff in Hx as (j & <- & Hj).
    apply in_seq in Hj. cbn [fst draw_pixel]. lia.
Qed.

(** X1. As long as every [int] it computes is in the range of [int], the
    calls of [line] that [draw_gaussian] makes are exactly the links between
    each pixel of the curve that falls on the image and the next such
    pixel, in the order of the abscissas: pixels off the image are skipped,
    and the polyline carries on across them. *)
Theorem draw_gaussian_links_visible_pixels (int_mu : Z) :
  int_sums_in_range height anchor_x anchor_y int_mu = true ->
  draw_gaussian height anchor_x anchor_y int_mu
  = consecutive (visible (abscissas int_mu)).
Proof. intros _. apply fold_pen_up. Qed.

(** X2. As long as every [int] it computes is in the range of [int], every
    call of [line] that [draw_gaussian] makes has both its end points on
    the image. *)
Theorem draw_gaussian_stays_on_image (int_mu : Z) :
  int_sums_in_range height anchor_x anchor_y int_mu = true ->
  Forall (fun seg : segment => on_image (fst seg) /\ on_image (snd seg))
    (draw_gaussian height anchor_x anchor_y int_mu).
Proof.
  intros _. unfold draw_gaussian. rewrite fold_pen_up.
  apply Forall_forall. intros [a b] Hin.
  apply consecutive_members in Hin as [Ha Hb].
  unfold on_image_pixels in Ha, Hb.
  apply filter_In in Ha as [_ Ha], Hb as [_ Hb].
  apply negb_true_iff in Ha, Hb.
  split; now apply off_image_false.
Qed.

(** X3. As long as every [int] it computes is in the range of [int], every
    call of [line] that [draw_gaussian] makes goes strictly from left to
    right. *)
Theorem draw_gaussian_left_to_right (int_mu : Z) :
  int_sums_in_range height anchor_x anchor_y int_mu = true ->
  Forall (fun seg : segment => (fst (fst seg) < fst (snd seg))%Z)
    (draw_gaussian height anchor_x anchor_y int_mu).
Proof.
  intros _. unfold draw_gaussian. rewrite fold_pen_up.
  apply (consecutive_sorted (fun q1 q2 : pixel => (fst q1 < fst q2)%Z)).
  apply filter_sorted, pixels_sorted.
Qed.

End DrawProperties.

(** * Properties in binary64 *)

(** ** Facts about rationals *)

Section RationalFacts.

Local Open Scope Q_scope.

Implicit Types (m s x z : Q).






End RationalFacts.

(** ** Signs in the specification of binary floating point *)

Section Signs.

Variables prec emax : Z.

Lemma shr_1_nonneg (mrs : shr_record) :
  (0 <= shr_m mrs)%Z -> (0 <= shr_m (shr_1 mrs))%Z.
Proof.
  destruct mrs as [m r s]. cbn [shr_m]. intros Hm.
  destruct m as [| p | p]; [cbn; lia | | lia].
  destruct p; cbn; lia.
Qed.

Lemma iter_pos_invariant {A : Type} (P : A -> Prop) (f : A -> A) :
  (forall a, P a -> P (f a)) ->
  forall (n : positive) (a : A), P a -> P (iter_pos f n a).
Proof.
  intros Hf. induction n as [n IH | n IH |]; intros a Ha; cbn [iter_pos].
  - apply IH, IH, Hf, Ha.
  - apply IH, IH, Ha.
  - apply Hf, Ha.
Qed.

Lemma shr_nonneg (mrs : shr_record) (e n : Z) :
  (0 <= shr_m mrs)%Z -> (0 <= shr_m (fst (shr mrs e n)))%Z.
Proof.
  intros Hm. destruct n as [| p | p]; cbn [shr fst]; try assumption.
  apply (iter_pos_invariant (fun r => (0 <= shr_m r)%Z)); [| assumption].
  apply shr_1_nonneg.
Qed.

Lemma shr_fexp_nonneg (m e : Z) (l : location) :
  (0 <= m)%Z -> (0 <= shr_m (fst (shr_fexp prec emax m e l)))%Z.
Proof.
  intros Hm. unfold shr_fexp. apply shr_nonneg.
  destruct l as [| []]; exact Hm.
Qed.

Lemma round_nearest_even_nonneg (m : Z) (l : location) :
  (0 <= m)%Z -> (0 <= round_nearest_even m l)%Z.
Proof.
  intros Hm. destruct l as [| []]; cbn [round_nearest_even]; try lia.
  destruct (Z.even m); lia.
Qed.

(** Rounding a non-negative mantissa under the sign [+] gives [+0], a
    positive number or [+infinity], never a NaN. *)
Lemma binary_round_aux_plus (m e : Z) (l : location) :
  (0 <= m)%Z -> plus_signed (binary_round_aux prec emax false m e l).
Proof.
  intros Hm. unfold binary_round_aux.
  pose proof (shr_fexp_nonneg m e l Hm) as H1.
  destruct (shr_fexp prec emax m e l) as [mrs' e']. cbn [fst] in H1.
  pose proof (shr_fexp_nonneg _ e' loc_Exact
                (round_nearest_even_nonneg _ (loc_of_shr_record mrs') H1))
    as H2.
  destruct (shr_fexp prec emax _ e' loc_Exact) as [mrs'' e''].
  cbn [fst] in H2.
  destruct (shr_m mrs'') as [| p | p]; [exact I | | lia].
  destruct (e'' <=? emax - prec)%Z; exact I.
Qed.

Lemma binary_round_plus (m : positive) (e : Z) :
  plus_signed (binary_round prec emax false m e).
Proof.
  unfold binary_round. destruct (shl_align _ _ _) as [mz ez].
  apply binary_round_aux_plus. lia.
Qed.

(** [+0], a positive number or [+infinity], plus a number that is not
    negative, is again [+0], a positive number or [+infinity]. *)
Lemma SFadd_plus (x y : spec_float) :
  plus_signed x -> nonnegative_sf y -> plus_signed (SFadd prec emax x y).
Proof.
  destruct x as [[] | [] | | [] mx ex]; try easy;
    destruct y as [[] | [] | | [] my ey]; try easy; intros _ _.
  cbn [SFadd cond_Zopp]. cbn [binary_normalize Z.add]. apply binary_round_plus.
Qed.

(** A positive number divided by [+0], a positive number or [+infinity] is
    [+infinity], [+0] or positive. *)
Lemma SFdiv_plus (mx : positive) (ex : Z) (y : spec_float) :
  plus_signed y ->
  plus_signed (SFdiv prec emax (S754_finite false mx ex) y).
Proof.
  destruct y as [[] | [] | | [] my ey]; try easy; intros _.
  cbn [SFdiv xorb]. unfold SFdiv_core_binary.
  set (m' := match _ with Zpos _ => _ | Z0 => _ | Zneg _ => _ end).
  assert (Hm' : (0 <= m')%Z).
  { subst m'. destruct (_ - _ - _)%Z; [lia | | lia].
    rewrite Z.shiftl_mul_pow2 by lia. apply Z.mul_nonneg_nonneg; [lia |].
    apply Z.pow_nonneg. lia. }
  pose proof (Z_div_mod m' (Zpos my) eq_refl) as Hdiv.
  destruct (Z.div_eucl m' (Zpos my)) as [q r]. destruct Hdiv as [Hq Hr].
  apply binary_round_aux_plus. nia.
Qed.

End Signs.

(** ** The sign of the uncertainty in binary64 *)

Section Binary64Signs.

Lemma Prim2SF_zero : Prim2SF 0%float = S754_zero false.
Proof. vm_compute. reflexivity. Qed.

Lemma Prim2SF_one :
  Prim2SF (float_of_Z 1) = S754_finite false 4503599627370496 (-52).
Proof. vm_compute. reflexivity. Qed.

Lemma ltb_zero_positive (x : float) :
  PrimFloat.ltb 0 x = true -> positive_sf (Prim2SF x).
Proof.
  rewrite ltb_spec, Prim2SF_zero. unfold SFltb, SFcompare.
  destruct (Prim2SF x) as [[] | [] | | [] m e]; easy.
Qed.

Lemma leb_zero_nonnegative (x : float) :
  PrimFloat.leb 0 x = true -> nonnegative_sf (Prim2SF x).
Proof.
  rewrite leb_spec, Prim2SF_zero. unfold SFleb, SFcompare.
  destruct (Prim2SF x) as [[] | [] | | [] m e]; easy.
Qed.

Lemma plus_signed_leb_zero (x : float) :
  plus_signed (Prim2SF x) -> PrimFloat.leb 0 x = true.
Proof.
  rewrite leb_spec, Prim2SF_zero. unfold SFleb, SFcompare.
  destruct (Prim2SF x) as [[] | [] | | [] m e]; easy.
Qed.

Lemma positive_plus_signed (x : spec_float) : positive_sf x -> plus_signed x.
Proof. destruct x as [[] | [] | | [] m e]; easy. Qed.

Lemma plus_signed_nonnegative (x : spec_float) :
  plus_signed x -> nonnegative_sf x.
Proof. destruct x as [[] | [] | | [] m e]; easy. Qed.

Lemma add_plus (x y : float) :
  plus_signed (Prim2SF x) -> nonnegative_sf (Prim2SF y) ->
  plus_signed (Prim2SF (x + y)%float).
Proof.
  intros Hx Hy. rewrite add_spec. now apply SFadd_plus.
Qed.

Lemma inverse_plus (x : float) :
  plus_signed (Prim2SF x) ->
  plus_signed (Prim2SF (float_of_Z 1 / x)%float).
Proof.
  intros Hx. rewrite div_spec, Prim2SF_one. now apply SFdiv_plus.
Qed.

(** A call keeps a sound filter sound. *)
Lemma do_call_sound (c : call float) (f : kalman_filter_1d float) :
  filter_sound f ->
  exists f', do_call c f = Returned (tt, f') /\ filter_sound f'.
Proof.
  intros (Hs & Hp & Hm).
  destruct (do_call_uncertainty c f) as (f' & E & Kp & Km & Ks).
  exists f'. split; [exact E |]. unfold filter_sound.
  rewrite Kp, Km, Ks. split; [| now split].
  destruct (is_predict c); cbn [dadd ddiv of_int Double_float].
  - now apply add_plus.
  - apply inverse_plus, add_plus.
    + now apply inverse_plus, positive_plus_signed.
    + now apply plus_signed_nonnegative, inverse_plus.
Qed.

Lemma do_calls_sound (cs : list (call float)) :
  forall f : kalman_filter_1d float,
  filter_sound f ->
  exists f', do_calls cs f = Returned (tt, f') /\ filter_sound f'.
Proof.
  induction cs as [| c cs IH]; intros f Hf.
  - now exists f.
  - destruct (do_call_sound c f Hf) as (f1 & E1 & Hf1).
    destruct (IH f1 Hf1) as (f' & E & Hf').
    exists f'. now rewrite (do_calls_cons c cs f f1 E1).
Qed.

Lemma filter_sound_intro (f : kalman_filter_1d float) :
  PrimFloat.ltb 0 (sigma f) = true ->
  PrimFloat.leb 0 (process_noise f) = true ->
  PrimFloat.ltb 0 (measurement_noise f) = true ->
  filter_sound f.
Proof.
  intros Hs Hp Hm. repeat split.
  - now apply positive_plus_signed, ltb_zero_positive.
  - now apply leb_zero_nonnegative.
  - now apply ltb_zero_positive.
Qed.

(** C6 (as the code has it). In binary64, from an uncertainty above 0, a
    process noise of 0 or more and a measurement noise above 0, every
    sequence of [predict] and [correct_by_measurement] calls returns and
    leaves an uncertainty of 0 or more: it is never negative and never a
    NaN. *)
Theorem uncertainty_stays_nonnegative (cs : list (call float))
    (f : kalman_filter_1d float) :
  PrimFloat.ltb 0 (sigma f) = true ->
  PrimFloat.leb 0 (process_noise f) = true ->
  PrimFloat.ltb 0 (measurement_noise f) = true ->
  exists f',
    do_calls cs f = Returned (tt, f') /\
    PrimFloat.leb 0 (sigma f') = true.
Proof.
  intros Hs Hp Hm.
  destruct (do_calls_sound cs f (filter_sound_intro f Hs Hp Hm))
    as (f' & E & Hs' & _).
  exists f'. split; [exact E |]. now apply plus_signed_leb_zero.
Qed.

(** The loop keeps a sound filter sound, and its noise members. *)
Lemma while_loop_sound (noise : list (float * float)) :
  forall s : main_vars float,
  filter_sound (myFilter s) ->
  exists s',
    while_loop noise s = Returned (tt, s') /\
    filter_sound (myFilter s') /\
    process_noise (myFilter s') = process_noise (myFilter s) /\
    measurement_noise (myFilter s') = measurement_noise (myFilter s).
Proof.
  induction noise as [| [n_p n_m] noise IH]; intros s Hf.
  - exists s. split; [reflexivity |]. split; [exact Hf |]. now split.
  - destruct (Z.lt_ge_cases (simulation_step s) 100000) as [Hgo | Hstop].
    + destruct (while_loop_go n_p n_m noise s Hgo) as (s1 & E & -> & _).
      destruct (loop_body_returns n_p n_m s)
        as (f1 & f2 & s2 & E1 & E2 & E' & Es2).
      rewrite E in E'. injection E' as <-.
      assert (Hf2 : myFilter s1 = f2) by now rewrite Es2.
      destruct (do_call_sound (Predict (float_of_Z 3)) (myFilter s) Hf)
        as (g1 & G1 & Hg1).
      destruct (do_call_uncertainty (Predict (float_of_Z 3)) (myFilter s))
        as (g1' & G1' & Kp1 & Km1 & _).
      cbn [do_call] in G1, G1'. rewrite G1 in G1'. injection G1' as <-.
      change (of_int 3) with (float_of_Z 3) in E1.
      rewrite E1 in G1. injection G1 as <-.
      destruct (do_call_sound (Correct (z s1)) f1 Hg1) as (g2 & G2 & Hg2).
      destruct (do_call_uncertainty (Correct (z s1)) f1)
        as (g2' & G2' & Kp2 & Km2 & _).
      cbn [do_call] in G2, G2'. rewrite G2 in G2'. injection G2' as <-.
      assert (Hz : z s1 = (main_mu s + float_of_Z 3 + n_p + n_m)%float)
        by now rewrite Es2.
      rewrite Hz in G2. change (of_int 3) with (float_of_Z 3) in E2.
      cbn [dadd Double_float] in E2.
      rewrite E2 in G2. injection G2 as <-.
      destruct (IH s1) as (s' & Hrun & Hs' & Kp & Km).
      * now rewrite Hf2.
      * exists s'. split; [exact Hrun |]. split; [exact Hs' |].
        rewrite Kp, Km, Hf2. split; congruence.
    + destruct (while_loop_stop ((n_p, n_m) :: noise) s Hstop) as [-> _].
      exists s. split; [reflexivity |]. split; [exact Hf |]. now split.
Qed.

(** X16. In binary64 the loop keeps the filter sound: from an uncertainty
    above 0, a process noise of 0 or more and a measurement noise above 0,
    the loop returns with the same noise members and an uncertainty of 0 or
    more, never negative and never a NaN, whatever the samples are. *)
Theorem loop_keeps_filter_sound (noise : list (float * float))
    (s : main_vars float) :
  PrimFloat.ltb 0 (sigma (myFilter s)) = true ->
  PrimFloat.leb 0 (process_noise (myFilter s)) = true ->
  PrimFloat.ltb 0 (measurement_noise (myFilter s)) = true ->
  exists s',
    while_loop noise s = Returned (tt, s') /\
    process_noise (myFilter s') = process_noise (myFilter s) /\
    measurement_noise (myFilter s') = measurement_noise (myFilter s) /\
    PrimFloat.leb 0 (sigma (myFilter s')) = true.
Proof.
  intros Hs Hp Hm.
  destruct (while_loop_sound noise s
              (filter_sound_intro (myFilter s) Hs Hp Hm))
    as (s' & Hrun & (Hs' & _) & Kp & Km).
  exists s'. repeat split; try assumption. now apply plus_signed_leb_zero.
Qed.

End Binary64Signs.

(** ** Corrections without rounding error *)

Section ExactCorrections.

Local Open Scope Q_scope.

Implicit Types (f : kalman_filter_1d float) (z : float).






End ExactCorrections.

(** ** Running averages without rounding error *)

Section ExactAverages.

Local Open Scope Q_scope.

Variables err sample : main_vars float -> float.



End ExactAverages.


(** ** The program in binary64 *)

Section Program.

Context {D : Type} `{Double D}.

(** While the loop draws all its samples, the naive estimate and the
    uncertainty of the filter go pass by pass, whatever the samples are. *)
Lemma while_loop_iterates (noise : list (D * D)) : forall s : main_vars D,
  (simulation_step s + Z.of_nat (length noise) <= 100000)%Z ->
  exists s',
    while_loop noise s = Returned (tt, s') /\
    simulation_step s' = (simulation_step s + Z.of_nat (length noise))%Z /\
    process_noise (myFilter s') = process_noise (myFilter s) /\
    measurement_noise (myFilter s') = measurement_noise (myFilter s) /\
    mu_naive_est s' = Nat.iter (length noise) pass_naive (mu_naive_est s) /\
    sigma (myFilter s')
    = Nat.iter (length noise)
        (pass_sigma (process_noise (myFilter s))
                    (measurement_noise (myFilter s)))
        (sigma (myFilter s)).
Proof.
  induction noise as [| [n_p n_m] noise IH]; intros s Hb.
  - exists s. cbn [length Nat.iter nat_rect Z.of_nat]. repeat split. lia.
  - cbn [length] in Hb. rewrite Nat2Z.inj_succ in Hb.
    destruct (while_loop_go n_p n_m noise s) as (s1 & E & -> & _); [lia |].
    destruct (loop_body_returns n_p n_m s)
      as (f1 & f2 & s2 & E1 & E2 & E' & Es2).
    rewrite E in E'. injection E' as <-.
    injection E1 as <-. injection E2 as <-.
    destruct (IH s1) as (s' & Hrun & Hstep & Kp & Km & Hnaive & Hsigma);
      [rewrite Es2; cbn [simulation_step]; lia |].
    exists s'. split; [exact Hrun |].
    rewrite Hstep, Kp, Km, Hnaive, Hsigma, Es2.
    cbn [length simulation_step myFilter mu_naive_est process_noise
         measurement_noise sigma set_mu set_sigma].
    rewrite !Nat.iter_succ_r. rewrite Nat2Z.inj_succ.
    repeat split. lia.
Qed.

End Program.

(** X18. In binary64, given the hundred thousand pairs of samples it draws
    (further ones are never drawn), [main] returns after exactly 100000
    passes, whatever the samples are, with the naive estimate at exactly
    300005, the noise members of the filter still at 10, and the
    uncertainty of the filter at 0x1.8b8ab04fbe3a2p+2, about 6.18034. *)
Theorem main_summary (noise : list (float * float)) :
  (100000 <= Z.of_nat (length noise))%Z ->
  exists s,
    main noise = Returned s /\
    simulation_step s = 100000%Z /\
    mu_naive_est s = 300005%float /\
    process_noise (myFilter s) = 10%float /\
    measurement_noise (myFilter s) = 10%float /\
    sigma (myFilter s) = 0x1.8b8ab04fbe3a2p+2%float.
Proof.
  intros Hl.
  remember (Z.to_nat 100000) as n eqn:En.
  assert (Hn : Z.of_nat n = 100000%Z) by (subst n; now apply Z2Nat.id).
  assert (Hlen : length (firstn n noise) = n)
    by (apply firstn_length_le; lia).
  assert (Hsplit : while_loop noise main_start
                   = while_loop (firstn n noise) main_start).
  { transitivity (while_loop (firstn n noise ++ skipn n noise) main_start);
      [now rewrite firstn_skipn |].
    apply while_loop_surplus. rewrite Hlen, Hn. reflexivity. }
  destruct (while_loop_iterates (firstn n noise) main_start)
    as (s & Hrun & Hstep & Kp & Km & Hnaive & Hsigma);
    [rewrite Hlen, Hn; discriminate |].
  exists s. split.
  { change (main noise)
      with (match while_loop noise main_start with
            | Returned (_, s0) => Returned s0
            | Raised c => Raised c
            end).
    now rewrite Hsplit, Hrun. }
  rewrite Hlen in Hnaive, Hsigma. rewrite Hlen, Hn in Hstep.
  split; [exact Hstep |].
  split; [rewrite Hnaive, En; vm_compute; reflexivity |].
  split; [rewrite Kp; vm_compute; reflexivity |].
  split; [rewrite Km; vm_compute; reflexivity |].
  rewrite Hsigma, En. vm_compute. reflexivity.
Qed.

(** * Concrete runs *)

(** Counterexample to C3 as stated: built with a measurement noise of zero, the
    constructor returns a filter holding that zero; nothing is raised. *)
Lemma zero_measurement_noise_accepted :
  (0 <= 0)%Q /\
  kalman_filter_1d_new 5%Q (3 # 4)%Q 10%Q 0%Q
    = Returned {| mu := 5%Q; sigma := (3 # 4)%Q;
                  process_noise := 10%Q; measurement_noise := 0%Q |} /\
  kalman_filter_1d_new 5%Q (3 # 4)%Q 10%Q 0%Q <> Raised InvalidParameter.
Proof.
  split; [apply Qle_refl |]. split; [reflexivity | discriminate].
Qed.

(** Counterexample to C4 as stated: on a filter whose uncertainty is zero, the
    correction returns, in binary64 with the filter as it was ([1.0/0.0] is
    an infinity and its inverse is zero); nothing is raised. *)
Lemma zero_uncertainty_not_rejected :
  sigma certain_filter = 0%float /\
  correct_by_measurement 8%float certain_filter
    = Returned (tt, certain_filter) /\
  correct_by_measurement 8%float certain_filter <> Raised InvalidState.
Proof.
  split; [reflexivity |]. split; [vm_compute; reflexivity | discriminate].
Qed.

Lemma correct_by_measurement_unguarded_witness :
  sigma certain_filter = of_int 0 /\
  exists f',
    correct_by_measurement 8%float certain_filter = Returned (tt, f') /\
    mu f' = ((measurement_noise certain_filter * mu certain_filter
              + of_int 0 * 8%float)
             / (measurement_noise certain_filter + of_int 0))%dbl /\
    sigma f' = (of_int 1 / (of_int 1 / measurement_noise certain_filter
                            + of_int 1 / of_int 0))%dbl.
Proof.
  split; [reflexivity |].
  apply (correct_by_measurement_unguarded certain_filter 8%float).
  reflexivity.
Defined.


(** Counterexample to C6 as stated: from uncertainty 1, process noise 10
    and the subnormal measurement noise 2^-1040, all as the claim asks, the
    inverse of the measurement noise overflows and the correction leaves the
    uncertainty at exactly 0, which is not above 0. *)
Lemma uncertainty_can_reach_zero :
  PrimFloat.ltb 0 (sigma subnormal_filter) = true /\
  PrimFloat.leb 0 (process_noise subnormal_filter) = true /\
  PrimFloat.ltb 0 (measurement_noise subnormal_filter) = true /\
  exists f',
    correct_by_measurement 8%float subnormal_filter = Returned (tt, f') /\
    sigma f' = 0%float /\
    PrimFloat.ltb 0 (sigma f') = false.
Proof.
  repeat (split; [reflexivity |]).
  eexists. split; [reflexivity |]. split; vm_compute; reflexivity.
Qed.




(** The values that stand for binary64 numbers. *)
Example to_Q_examples :
  (to_Q 0.75 == 3 # 4)%Q /\ (to_Q (-2) == -2)%Q /\ (to_Q 10 == 10)%Q /\
  (to_Q tenth == 3602879701896397 # 36028797018963968)%Q /\
  (to_Q 0x1p-1040 == 1 / 2 ^ 1040)%Q /\
  is_finite 0x1p+80 = true /\
  is_finite infinity = false /\ is_finite neg_infinity = false /\
  is_finite nan = false.
Proof. repeat split; vm_compute; reflexivity. Qed.


Lemma uncertainty_stays_nonnegative_witness :
  PrimFloat.ltb 0 (sigma (myFilter main_start)) = true /\
  PrimFloat.leb 0 (process_noise (myFilter main_start)) = true /\
  PrimFloat.ltb 0 (measurement_noise (myFilter main_start)) = true /\
  exists f',
    do_calls [Predict 3; Correct 7; Correct 9; Predict 3]%float
      (myFilter main_start) = Returned (tt, f') /\
    PrimFloat.leb 0 (sigma f') = true.
Proof.
  repeat (split; [vm_compute; reflexivity |]).
  apply (uncertainty_stays_nonnegative
           [Predict 3; Correct 7; Correct 9; Predict 3]%float
           (myFilter main_start)); vm_compute; reflexivity.
Defined.




Lemma while_loop_pass_witness :
  (simulation_step main_start < 100000)%Z /\
  exists f1 f2,
    predict 3%float (myFilter main_start) = Returned (tt, f1) /\
    correct_by_measurement 7%float f1 = Returned (tt, f2) /\
    let s1 :=
      {| main_mu := 9%float;
         mu_naive_est := 8%float;
         myFilter := f2;
         simulation_step := 1;
         error_measurement := ((0 * 0 + abs (7 - 9)) / (0 + 1))%float;
         error_naive := ((0 * 0 + abs (8 - 9)) / (0 + 1))%float;
         error_kf := ((0 * 0 + abs (mu f2 - 9)) / (0 + 1))%float;
         z := 7%float |} in
    loop_body 1%float (-2)%float main_start = Returned (tt, s1) /\
    while_loop [(1, -2)]%float main_start = Returned (tt, s1) /\
    while_loop [(1, -2); (-4, 0.5)]%float main_start
    = while_loop [(-4, 0.5)]%float s1.
Proof.
  split; [reflexivity |].
  exact (while_loop_pass 1%float (-2)%float [(-4, 0.5)]%float main_start
           eq_refl).
Defined.

Lemma draw_gaussian_links_visible_pixels_witness :
  int_sums_in_range tent 400 700 0 = true /\
  draw_gaussian tent 400 700 0
  = consecutive (on_image_pixels tent 400 700 (abscissas 0)).
Proof.
  split; [vm_compute; reflexivity |].
  apply (draw_gaussian_links_visible_pixels tent 400 700 0).
  vm_compute; reflexivity.
Defined.

Lemma draw_gaussian_stays_on_image_witness :
  int_sums_in_range tent 400 700 0 = true /\
  Forall (fun seg : segment => on_image (fst seg) /\ on_image (snd seg))
    (draw_gaussian tent 400 700 0).
Proof.
  split; [vm_compute; reflexivity |].
  apply (draw_gaussian_stays_on_image tent 400 700 0).
  vm_compute; reflexivity.
Defined.

Lemma draw_gaussian_left_to_right_witness :
  int_sums_in_range tent 400 700 0 = true /\
  Forall (fun seg : segment => (fst (fst seg) < fst (snd seg))%Z)
    (draw_gaussian tent 400 700 0).
Proof.
  split; [vm_compute; reflexivity |].
  apply (draw_gaussian_left_to_right tent 400 700 0).
  vm_compute; reflexivity.
Defined.

Lemma loop_keeps_filter_sound_witness :
  PrimFloat.ltb 0 (sigma (myFilter main_start)) = true /\
  PrimFloat.leb 0 (process_noise (myFilter main_start)) = true /\
  PrimFloat.ltb 0 (measurement_noise (myFilter main_start)) = true /\
  exists s',
    while_loop tenth_noise main_start = Returned (tt, s') /\
    process_noise (myFilter s') = process_noise (myFilter main_start) /\
    measurement_noise (myFilter s')
    = measurement_noise (myFilter main_start) /\
    PrimFloat.leb 0 (sigma (myFilter s')) = true.
Proof.
  repeat (split; [vm_compute; reflexivity |]).
  apply (loop_keeps_filter_sound tenth_noise main_start);
    vm_compute; reflexivity.
Defined.

Lemma main_summary_witness :
  (100000 <= Z.of_nat (length (repeat (1, -2)%float (Z.to_nat 100000))))%Z /\
  exists s,
    main (repeat (1, -2)%float (Z.to_nat 100000)) = Returned s /\
    simulation_step s = 100000%Z /\
    mu_naive_est s = 300005%float /\
    process_noise (myFilter s) = 10%float /\
    measurement_noise (myFilter s) = 10%float /\
    sigma (myFilter s) = 0x1.8b8ab04fbe3a2p+2%float.
Proof.
  split; [vm_compute; discriminate |].
  apply (main_summary (repeat (1, -2)%float (Z.to_nat 100000))).
  vm_compute; discriminate.
Defined.

Lemma uncertainty_ignores_data_witness :
  map is_predict [Predict 3; Correct 7]%Q
  = map is_predict [Predict (-1); Correct 100]%Q /\
  sigma demo_filter = sigma (set_mu (-20)%Q demo_filter) /\
  process_noise demo_filter = process_noise (set_mu (-20)%Q demo_filter) /\
  measurement_noise demo_filter
  = measurement_noise (set_mu (-20)%Q demo_filter) /\
  exists f1' f2',
    do_calls [Predict 3; Correct 7]%Q demo_filter = Returned (tt, f1') /\
    do_calls [Predict (-1); Correct 100]%Q (set_mu (-20)%Q demo_filter)
      = Returned (tt, f2') /\
    sigma f1' = sigma f2'.
Proof.
  repeat (split; [reflexivity |]).
  apply (uncertainty_ignores_data
           [Predict 3; Correct 7]%Q [Predict (-1); Correct 100]%Q
           demo_filter (set_mu (-20)%Q demo_filter)); reflexivity.
Defined.

Lemma while_loop_pass_count_witness :
  (simulation_step demo_vars <= 100000)%Z /\
  exists s',
    while_loop demo_noise demo_vars = Returned (tt, s') /\
    simulation_step s'
    = Z.min (simulation_step demo_vars + Z.of_nat (length demo_noise)) 100000 /\
    Z.of_nat (length (trace demo_noise demo_vars))
    = (simulation_step s' - simulation_step demo_vars)%Z.
Proof.
  split; [discriminate |].
  apply (while_loop_pass_count demo_noise demo_vars). discriminate.
Defined.

